(** * Fortune telling service: the request core of [main.py]

    A shallow embedding of [get_fortune], [send_webhook] and the [/result]
    endpoint, followed by the properties the specification states about them.

    Modelling choices, all taken from the Python source:
    - [str] is [string]: the UTF-8 bytes of the text.  Equality, emptiness,
      concatenation and [str.join] agree with Python's on code points because
      UTF-8 is injective and compatible with concatenation.
    - [int] is [Z]; an [int] inside an f-string is its decimal numeral.
    - [float] is the kernel's binary64 [float]; [score > 0.6] is
      [PrimFloat.ltb] against the binary64 value the literal [0.6] denotes.
    - [dict] with string keys is [gmap string _], [set] of [str] is
      [gset string].  The order in which CPython walks a set of strings
      depends on the per-process hash seed, so it is a parameter
      ([set_iter]) constrained only to enumerate the set.
    - [random] is an arbitrary infinite sequence of draws with a cursor,
      threaded through the code by a state-and-exception monad.
    - [print] calls write to the process log only and are left out, except in
      [send_webhook], whose observable behaviour is its list of effects. *)

From Stdlib Require Import Floats ZArith.
From stdpp Require Import gmap strings list pretty.

Local Open Scope string_scope.
Local Open Scope Z_scope.
Local Open Scope list_scope.

(** ** Python runtime fragments *)

(** The exceptions that occur; every one of them derives from [Exception]. *)
Inductive exn : Type :=
  | IndexError
  | Failure (msg : string).

Inductive outcome (A : Type) : Type :=
  | Return (a : A)
  | Raise (e : exn).
Arguments Return {A} a.
Arguments Raise {A} e.

(** [str(e)] *)
Definition str_of_exn (e : exn) : string :=
  match e with
  | IndexError => "Cannot choose from an empty sequence"
  | Failure msg => msg
  end.

(** The global generator of module [random]. *)
Record rng : Type := { draws : nat -> nat; cursor : nat }.

Definition M (A : Type) : Type := rng -> outcome (A * rng).

#[global] Instance M_ret : MRet M := fun A a g => Return (a, g).
#[global] Instance M_bind : MBind M := fun A B k m g =>
  match m g with
  | Return (a, g') => k a g'
  | Raise e => Raise e
  end.

Definition raise {A} (e : exn) : M A := fun _ => Raise e.

(** [random._randbelow(n)] for [n > 0]: an index below [n]. *)
Definition randbelow (n : nat) : M nat := fun g =>
  Return ((draws g (cursor g) `mod` n)%nat,
          {| draws := draws g; cursor := S (cursor g) |}).

(** [random.choice(seq)]:
    [if not len(seq): raise IndexError(...)], then
    [seq[self._randbelow(len(seq))]]. *)
Definition choice (seq : list string) : M string :=
  if decide (length seq = 0%nat) then raise IndexError
  else
    i ← randbelow (length seq);
    match seq !! i with
    | Some a => mret a
    | None => raise IndexError
    end.

(** [sep.join(ls)] *)
Fixpoint join (sep : string) (ls : list string) : string :=
  match ls with
  | [] => ""
  | [x] => x
  | x :: xs => x +:+ sep +:+ join sep xs
  end.

Definition newline : string := String (Ascii.ascii_of_nat 10) "".

(** ** Module-level tables *)

Definition LABEL_MAPPING : gmap string string :=
  list_to_map
    [ ("Sự nghiệp", "S0");
      ("Công việc", "S0");
      ("Tình duyên", "S1");
      ("Tình yêu", "S1");
      ("Gia đạo", "S1");
      ("Sức khỏe", "S2");
      ("Tài lộc", "S3");
      ("Tiền bạc", "S3");
      ("Tổng quát", "S4");
      ("Khác", "S4") ].

Definition CANDIDATE_LABELS : list string :=
  ["Sự nghiệp"; "Tình duyên"; "Sức khỏe"; "Tài lộc"; "Tổng quát"].

(** The binary64 value that the literal [0.6] denotes. *)
Definition threshold : float := 0x1.3333333333333p-1%float.

Definition default_answer : string :=
  "Vũ trụ đang gửi tín hiệu nhiễu, nhưng hãy tin rằng mọi điều tốt đẹp sẽ đến.".

(** What [classifier(question, CANDIDATE_LABELS, multi_label=True)] hands
    back: the dictionary's ['labels'] and ['scores'] entries. *)
Record classification : Type :=
  { labels : list string; scores : list float }.

(** One record of [answers.json]: it has a ["status"], and may have an
    ["answers"] list. *)
Record category : Type :=
  { status : string; answers : option (list string) }.

(** What the process does to the outside world in [send_webhook]. *)
Inductive effect : Type :=
  | HttpPost (url text : string)
  | PrintLine (line : string).

(** The template context handed to [result.html]. *)
Record page : Type :=
  { page_name : string; page_age : Z;
    page_question : string; page_fortune : string }.

(** ** Module start-up *)

(** Lines 33-38: [classifier] is the pipeline if building it returns, and
    [None] if it raises. *)
Definition load_classifier
    (built : outcome (string -> list string -> outcome classification))
    : option (string -> list string -> outcome classification) :=
  match built with
  | Return pipeline => Some pipeline
  | Raise _ => None
  end.

(** Lines 46-51: [ANSWERS_DATA] is what [json.load] returns, and [[]] if
    opening or parsing [answers.json] raises. *)
Definition load_answers_data (loaded : outcome (list category))
    : list category :=
  match loaded with
  | Return data => data
  | Raise _ => []
  end.

Section Service.

(** [classifier]: [None] when the model could not be loaded, otherwise the
    pipeline, whose call either returns or raises. *)
Variable classifier :
  option (string -> list string -> outcome classification).
(** [ANSWERS_DATA]: the records of [answers.json], [[]] if loading failed. *)
Variable ANSWERS_DATA : list category.
(** [WEBHOOK_URL = os.environ.get("WEBHOOK_URL")] *)
Variable WEBHOOK_URL : option string.
(** [client.post(url, json={"text": text})]: completes or raises. *)
Variable http_post : string -> string -> outcome unit.
(** The order in which [for status in statuses] visits a set. *)
Variable set_iter : gset string -> list string.
Hypothesis set_iter_perm : ∀ s, set_iter s ≡ₚ elements s.

(** Body of [for label, score in zip(...)] (lines 111-115). *)
Definition keep_label (acc : gset string * list string)
    (item : string * float) : gset string * list string :=
  let '(statuses, topic_labels) := acc in
  let '(label, score) := item in
  if PrimFloat.ltb threshold score then
    match LABEL_MAPPING !! label with
    | Some code => ({[code]} ∪ statuses, topic_labels ++ [label])
    | None => acc
    end
  else acc.

Definition keep_labels (r : classification)
    (acc : gset string * list string) : gset string * list string :=
  foldl keep_label acc (zip (labels r) (scores r)).

(** Step 2 up to the fallback (lines 100-118). *)
Definition classify (question : string) : gset string * list string :=
  let acc := (∅, []) in
  match classifier with
  | None => acc
  | Some pipeline =>
      match pipeline question CANDIDATE_LABELS with
      | Return r => keep_labels r acc
      | Raise _ => acc
      end
  end.

(** [if not statuses: ...] (lines 121-123). *)
Definition fallback (acc : gset string * list string)
    : gset string * list string :=
  let '(statuses, topic_labels) := acc in
  if decide (statuses = ∅)
  then ({["S4"]} ∪ statuses, topic_labels ++ ["Tổng quát"])
  else acc.

(** [next((item for item in ANSWERS_DATA if item["status"] == status), None)] *)
Definition category_data (code : string) : option category :=
  find (λ item, bool_decide (status item = code)) ANSWERS_DATA.

(** Body of [for status in statuses] (lines 130-133). *)
Definition pick_answer (selected_answers : list string) (code : string)
    : M (list string) :=
  match category_data code with
  | Some item =>
      match answers item with
      | Some pool => a ← choice pool; mret (selected_answers ++ [a])
      | None => mret selected_answers
      end
  | None => mret selected_answers
  end.

Fixpoint pick_answers (order : list string) (selected_answers : list string)
    : M (list string) :=
  match order with
  | [] => mret selected_answers
  | code :: rest =>
      selected_answers ← pick_answer selected_answers code;
      pick_answers rest selected_answers
  end.

(** Step 3 (lines 126-136). *)
Definition select_answers (statuses : gset string) : M (list string) :=
  selected_answers ← pick_answers (set_iter statuses) [];
  if decide (selected_answers = [])
  then mret (selected_answers ++ [default_answer])
  else mret selected_answers.

(** Step 4 (lines 140-141). *)
Definition format_response (name : string) (birth_year : Z)
    (selected_answers : list string) : string :=
  let combined_answer := join " " selected_answers in
  "Gia chủ " +:+ name +:+ ", Sinh năm " +:+ pretty birth_year
    +:+ ". " +:+ combined_answer.

(** [get_fortune(name, age, question)]; [current_year] is what
    [datetime.now().year] reads when the call starts. *)
Definition get_fortune (current_year : Z)
    (name : string) (age : Z) (question : string) : M string :=
  let birth_year := current_year - age in
  let '(statuses, topic_labels) := fallback (classify question) in
  selected_answers ← select_answers statuses;
  mret (format_response name birth_year selected_answers).

(** [send_webhook(name, age, question)]: its effects, in order, and how
    the coroutine ends. *)
Definition send_webhook (name : string) (age : Z) (question : string)
    : list effect * outcome unit :=
  match WEBHOOK_URL with
  | None => ([], Return ())
  | Some url =>
      if decide (url = "") then ([], Return ())
      else
        let text :=
          "New Fortune Request:" +:+ newline +:+ "Name: " +:+ name
            +:+ newline +:+ "Age: " +:+ pretty age
            +:+ newline +:+ "Question: " +:+ question in
        match http_post url text with
        | Return _ => ([HttpPost url text], Return ())
        | Raise e =>
            ([HttpPost url text;
              PrintLine ("Error sending webhook: " +:+ str_of_exn e)],
             Return ())
        end
  end.

(** The body of the [/result] endpoint (lines 190-205), which runs for a
    request that the rate limiter and the form parsing have let through:
    the page it renders, and what its background task does once the
    response has been sent. *)
Definition result (current_year : Z)
    (name : string) (age : Z) (question : string)
    : M (page * (list effect * outcome unit)) :=
  fortune ← get_fortune current_year name age question;
  let background_task := send_webhook name age question in
  mret ({| page_name := name; page_age := age;
           page_question := question; page_fortune := fortune |},
        background_task).

(** What the client receives from a run of that body: the page, or the
    exception that makes the request fail. *)
Definition response {B : Type} (run : outcome (page * B * rng))
    : outcome page :=
  match run with
  | Return (rendered, _, _) => Return rendered
  | Raise e => Raise e
  end.

(** The condition [category_data and "answers" in category_data] of line
    132, for the record found for [code]. *)
Definition has_answers (code : string) : bool :=
  match category_data code with
  | Some item => bool_decide (is_Some (answers item))
  | None => false
  end.

(** ** Comparison of binary64 values *)

Lemma SFleb_not_SFltb (x y : spec_float) :
  SFleb x y = true → SFltb y x = false.
Proof.
  unfold SFleb, SFltb.
  destruct x as [sx|sx| |sx mx ex], y as [sy|sy| |sy my ey]; simpl;
    try destruct sx; try destruct sy; try done.
  all: rewrite (Z.compare_antisym ex ey).
  all: destruct (ex ?= ey)%Z; simpl; try done.
  all: change (PosDef.Pos.compare_cont Eq my mx)
         with (Pos.compare_cont (CompOpp Eq) my mx).
  all: rewrite <- (Pos.compare_cont_antisym mx my Eq).
  all: change PosDef.Pos.compare_cont with Pos.compare_cont.
  all: destruct (Pos.compare_cont Eq mx my); done.
Qed.

Lemma leb_not_ltb (x y : float) :
  PrimFloat.leb x y = true → PrimFloat.ltb y x = false.
Proof. rewrite leb_spec, ltb_spec. apply SFleb_not_SFltb. Qed.

Lemma ltb_not_leb (x y : float) :
  PrimFloat.ltb y x = true → PrimFloat.leb x y = false.
Proof.
  intros Hlt. destruct (PrimFloat.leb x y) eqn:Hle; [|done].
  apply leb_not_ltb in Hle. congruence.
Qed.

(** ** The filtering loop *)

Lemma keep_label_below acc label score :
  PrimFloat.ltb threshold score = false → keep_label acc (label, score) = acc.
Proof. intros H. destruct acc. unfold keep_label. by rewrite H. Qed.

Lemma keep_label_unmapped acc label score :
  LABEL_MAPPING !! label = None → keep_label acc (label, score) = acc.
Proof.
  intros H. destruct acc. unfold keep_label. rewrite H.
  by destruct (PrimFloat.ltb threshold score).
Qed.

Lemma keep_label_kept statuses topic_labels label score code :
  PrimFloat.ltb threshold score = true →
  LABEL_MAPPING !! label = Some code →
  keep_label (statuses, topic_labels) (label, score)
  = ({[code]} ∪ statuses, topic_labels ++ [label]).
Proof. intros H1 H2. unfold keep_label. by rewrite H1, H2. Qed.

Lemma foldl_keep_label_skip acc pre item post :
  (∀ acc', keep_label acc' item = acc') →
  foldl keep_label acc (pre ++ item :: post)
  = foldl keep_label acc (pre ++ post).
Proof. intros H. rewrite !foldl_app. simpl. by rewrite H. Qed.

(** A status code is in the set after the loop exactly when it was there
    before or some pair above the threshold maps to it. *)
Lemma foldl_keep_label_statuses items acc code :
  code ∈ (foldl keep_label acc items).1 ↔
  code ∈ acc.1 ∨
  ∃ label score, (label, score) ∈ items
    ∧ PrimFloat.ltb threshold score = true
    ∧ LABEL_MAPPING !! label = Some code.
Proof.
  revert acc. induction items as [|[label score] items IH]; intros acc; simpl.
  - split; [by left|]. intros [H|(l & s & H & _)]; [done|].
    by apply elem_of_nil in H.
  - rewrite IH. clear IH. destruct acc as [statuses topic_labels].
    unfold keep_label.
    destruct (PrimFloat.ltb threshold score) eqn:Hs;
      [destruct (LABEL_MAPPING !! label) as [c|] eqn:Hl|]; simpl.
    + rewrite elem_of_union, elem_of_singleton. split.
      * intros [[->|H]|(l & s & H & Hs' & Hl')].
        -- right. exists label, score. split_and!; [left|done|done].
        -- by left.
        -- right. exists l, s. split_and!; [by right|done|done].
      * intros [H|(l & s & H & Hs' & Hl')]; [by left; right|].
        apply elem_of_cons in H as [[= -> ->]|H].
        -- left; left. congruence.
        -- right. by exists l, s.
    + split.
      * intros [H|(l & s & H & Hs' & Hl')]; [by left|].
        right. exists l, s. split_and!; [by right|done|done].
      * intros [H|(l & s & H & Hs' & Hl')]; [by left|].
        apply elem_of_cons in H as [[= -> ->]|H]; [congruence|].
        right. by exists l, s.
    + split.
      * intros [H|(l & s & H & Hs' & Hl')]; [by left|].
        right. exists l, s. split_and!; [by right|done|done].
      * intros [H|(l & s & H & Hs' & Hl')]; [by left|].
        apply elem_of_cons in H as [[= -> ->]|H]; [congruence|].
        right. by exists l, s.
Qed.

(** The labels recorded by the loop are the kept ones, in encounter
    order. *)
Lemma foldl_keep_label_topic_labels items acc :
  (foldl keep_label acc items).2
  = acc.2 ++ (filter (λ item, PrimFloat.ltb threshold item.2 = true
                              ∧ is_Some (LABEL_MAPPING !! item.1)) items).*1.
Proof.
  revert acc. induction items as [|[label score] items IH]; intros acc; simpl.
  - by rewrite app_nil_r.
  - rewrite IH. clear IH. destruct acc as [statuses topic_labels].
    unfold keep_label.
    destruct (PrimFloat.ltb threshold score) eqn:Hs;
      [destruct (LABEL_MAPPING !! label) as [c|] eqn:Hl|]; simpl.
    + rewrite filter_cons_True by (simpl; split; [done|by eexists]).
      simpl. by rewrite <- app_assoc.
    + rewrite filter_cons_False; [done|]. simpl. intros [_ [? ?]].
      congruence.
    + rewrite filter_cons_False; [done|]. simpl. intros [? _]. congruence.
Qed.

Lemma classify_cases question :
  classify question = (∅, []) ∨
  ∃ pipeline r, classifier = Some pipeline
    ∧ pipeline question CANDIDATE_LABELS = Return r
    ∧ classify question
      = foldl keep_label (∅, []) (zip (labels r) (scores r)).
Proof.
  unfold classify. destruct classifier as [pipeline|]; [|by left].
  destruct (pipeline question CANDIDATE_LABELS) as [r|e] eqn:Hp; [|by left].
  right. by exists pipeline, r.
Qed.

Lemma classify_returned pipeline question r :
  classifier = Some pipeline →
  pipeline question CANDIDATE_LABELS = Return r →
  classify question = foldl keep_label (∅, []) (zip (labels r) (scores r)).
Proof. intros Hc Hp. unfold classify. by rewrite Hc, Hp. Qed.

Lemma fallback_statuses acc :
  (fallback acc).1 = if decide (acc.1 = ∅) then {["S4"]} else acc.1.
Proof.
  destruct acc as [statuses topic_labels]. unfold fallback. simpl.
  destruct (decide (statuses = ∅)) as [->|]; simpl; [|done].
  by rewrite (right_id_L ∅ (∪)).
Qed.

Lemma fallback_nonempty acc : (fallback acc).1 ≠ ∅.
Proof.
  rewrite fallback_statuses. destruct (decide (acc.1 = ∅)); [|done].
  intros H. assert ("S4" ∈ (∅ : gset string)) as H'; [|set_solver].
  rewrite <- H. set_solver.
Qed.

Lemma foldl_keep_label_all_below (ls : list string) (ss : list float) acc :
  Forall (λ score, PrimFloat.ltb threshold score = false) ss →
  foldl keep_label acc (zip ls ss) = acc.
Proof.
  intros Hall. revert ls. induction Hall as [|score ss Hs _ IH]; intros ls.
  - by destruct ls.
  - destruct ls as [|label ls]; [done|]. simpl.
    rewrite keep_label_below by done. apply IH.
Qed.

Lemma LABEL_MAPPING_range label code :
  LABEL_MAPPING !! label = Some code →
  code ∈ ["S0"; "S1"; "S2"; "S3"; "S4"].
Proof.
  intros H. apply elem_of_list_to_map_2 in H.
  repeat (apply elem_of_cons in H as [[= _ <-]|H];
          [by repeat constructor|]).
  by apply elem_of_nil in H.
Qed.

Lemma status_code_range (code : string) :
  code ∈ ["S0"; "S1"; "S2"; "S3"; "S4"] →
  code ∈ ({["S0"; "S1"; "S2"; "S3"; "S4"]} : gset string).
Proof.
  intros H. rewrite !elem_of_union, !elem_of_singleton.
  repeat (apply elem_of_cons in H as [->|H]; [by auto 6|]).
  by apply elem_of_nil in H.
Qed.

(** ** Drawing the answers *)

Lemma choice_returns pool g :
  pool ≠ [] → ∃ a g', a ∈ pool ∧ choice pool g = Return (a, g').
Proof.
  intros Hne. unfold choice.
  destruct (decide (length pool = 0%nat)) as [H0|H0]; [by destruct pool|].
  unfold mbind, M_bind, randbelow.
  set (i := (draws g (cursor g) `mod` length pool)%nat).
  assert (i < length pool)%nat as Hi by (by apply Nat.mod_upper_bound).
  destruct (lookup_lt_is_Some_2 pool i Hi) as [a Ha]. rewrite Ha.
  eexists _, _. split; [|done]. by eapply list_elem_of_lookup_2.
Qed.

Lemma pick_answer_pool selected_answers code item pool g :
  category_data code = Some item → answers item = Some pool → pool ≠ [] →
  ∃ a g', a ∈ pool
    ∧ pick_answer selected_answers code g
      = Return (selected_answers ++ [a], g').
Proof.
  intros Hc Ha Hne. unfold pick_answer. rewrite Hc, Ha.
  destruct (choice_returns pool g Hne) as (a & g' & Hin & Hch).
  exists a, g'. split; [done|]. unfold mbind, M_bind. by rewrite Hch.
Qed.

Lemma pick_answers_app order1 order2 selected_answers g :
  pick_answers (order1 ++ order2) selected_answers g
  = (selected ← pick_answers order1 selected_answers;
     pick_answers order2 selected) g.
Proof.
  revert selected_answers g.
  induction order1 as [|code order1 IH]; intros sel g; [done|].
  simpl. unfold mbind, M_bind in *.
  destruct (pick_answer sel code g) as [[sel' g']|e]; [|done]. apply IH.
Qed.

Lemma get_fortune_unfold current_year name age question g :
  get_fortune current_year name age question g =
    match select_answers (fallback (classify question)).1 g with
    | Return (selected_answers, g') =>
        Return (format_response name (current_year - age) selected_answers,
                g')
    | Raise e => Raise e
    end.
Proof.
  unfold get_fortune. destruct (fallback (classify question)) as [st tl].
  simpl. unfold mbind, M_bind.
  by destruct (select_answers st g) as [[sel g']|e].
Qed.

Lemma set_iter_singleton code : set_iter {[code]} = [code].
Proof.
  apply Permutation_singleton_r. rewrite set_iter_perm.
  by rewrite elements_singleton.
Qed.

Lemma select_answers_singleton_pool code item pool g :
  category_data code = Some item → answers item = Some pool → pool ≠ [] →
  ∃ a g', a ∈ pool ∧ select_answers {[code]} g = Return ([a], g').
Proof.
  intros Hc Ha Hne. unfold select_answers. rewrite set_iter_singleton.
  simpl. unfold mbind, M_bind.
  destruct (pick_answer_pool [] code item pool g Hc Ha Hne)
    as (a & g' & Hin & ->).
  by exists a, g'.
Qed.

Lemma append_assoc (s1 s2 s3 : string) :
  (s1 +:+ s2) +:+ s3 = s1 +:+ (s2 +:+ s3).
Proof.
  induction s1 as [|c s1 IH]; [done|].
  change (String c ((s1 +:+ s2) +:+ s3) = String c (s1 +:+ s2 +:+ s3)).
  by f_equal.
Qed.

Lemma join_singleton sep x : join sep [x] = x.
Proof. done. Qed.

Lemma join_snoc sep xs x :
  xs ≠ [] → join sep (xs ++ [x]) = join sep xs +:+ sep +:+ x.
Proof.
  induction xs as [|y [|z xs] IH]; intros Hne; [done|done|].
  change (join sep ((y :: z :: xs) ++ [x]))
    with (y +:+ sep +:+ join sep ((z :: xs) ++ [x])).
  rewrite IH by done.
  change (join sep (y :: z :: xs)) with (y +:+ sep +:+ join sep (z :: xs)).
  by rewrite !append_assoc.
Qed.

(** ** Topic resolution *)

(** C1. When the classifier is missing, raises, returns no scores, or
    returns no score strictly above the threshold, the resolved pair is
    exactly the set holding ["S4"] with the label ["Tổng quát"] recorded;
    the set is not empty, and when the table has a non-empty pool for
    ["S4"] the message is the greeting followed by one answer of that
    pool. *)
Theorem fallback_to_general_status current_year name age question :
  (classifier = None
   ∨ ∃ pipeline, classifier = Some pipeline
       ∧ ((∃ e, pipeline question CANDIDATE_LABELS = Raise e)
          ∨ ∃ r, pipeline question CANDIDATE_LABELS = Return r
              ∧ Forall (λ score, PrimFloat.ltb threshold score = false)
                       (scores r))) →
  fallback (classify question) = ({["S4"]}, ["Tổng quát"])
  ∧ (fallback (classify question)).1 ≠ ∅
  ∧ ∀ item pool,
      category_data "S4" = Some item → answers item = Some pool →
      pool ≠ [] →
      ∀ g, ∃ a g', a ∈ pool
        ∧ get_fortune current_year name age question g
          = Return ("Gia chủ " +:+ name +:+ ", Sinh năm "
                      +:+ pretty (current_year - age) +:+ ". " +:+ a, g').
Proof.
  intros Hout.
  assert (classify question = (∅, [])) as Hcl.
  { unfold classify.
    destruct Hout as [->|(pipeline & -> & [[e ->]|(r & -> & Hall)])];
      [done|done|].
    unfold keep_labels. by apply foldl_keep_label_all_below. }
  assert (fallback (classify question) = ({["S4"]}, ["Tổng quát"])) as Hfb.
  { rewrite Hcl. unfold fallback. rewrite decide_True by done.
    by rewrite (right_id_L ∅ (∪)). }
  split_and!; [done|apply fallback_nonempty|].
  intros item pool Hc Ha Hne g. rewrite get_fortune_unfold, Hfb. simpl.
  destruct (select_answers_singleton_pool "S4" item pool g Hc Ha Hne)
    as (a & g' & Hin & ->).
  by exists a, g'.
Qed.

(** C2. A pair whose score is less than or equal to the threshold leaves
    the accumulator as it was, so the resolved pair is the one obtained
    without it; the threshold itself is such a score; and every status
    code the loop collects comes from a pair whose score is strictly
    above the threshold. *)
Theorem score_not_above_threshold_excluded
    pipeline question r pre label score post :
  classifier = Some pipeline →
  pipeline question CANDIDATE_LABELS = Return r →
  zip (labels r) (scores r) = pre ++ (label, score) :: post →
  PrimFloat.leb score threshold = true →
  (∀ acc, keep_label acc (label, score) = acc)
  ∧ (∀ acc label', keep_label acc (label', threshold) = acc)
  ∧ classify question = foldl keep_label (∅, []) (pre ++ post)
  ∧ ∀ code, code ∈ (classify question).1 →
      ∃ label' score', (label', score') ∈ pre ++ post
        ∧ PrimFloat.ltb threshold score' = true
        ∧ PrimFloat.leb score' threshold = false
        ∧ LABEL_MAPPING !! label' = Some code.
Proof.
  intros Hc Hp Hz Hle.
  assert (∀ acc, keep_label acc (label, score) = acc) as Hskip.
  { intros acc. apply keep_label_below. by apply leb_not_ltb. }
  assert (classify question = foldl keep_label (∅, []) (pre ++ post)) as Hcl.
  { rewrite (classify_returned pipeline question r Hc Hp), Hz.
    by apply foldl_keep_label_skip. }
  split_and!; [done| |done|].
  - intros acc label'. by apply keep_label_below.
  - intros code. rewrite Hcl, foldl_keep_label_statuses. simpl.
    intros [H|(l & s & Hin & Hs & Hl)]; [by apply elem_of_empty in H|].
    exists l, s. split_and!; [done|done| |done]. by apply ltb_not_leb.
Qed.

(** C9. Whatever the classifier does, every status code in the resolved
    set is one of ["S0"], ["S1"], ["S2"], ["S3"], ["S4"]. *)
Theorem resolved_statuses_in_range question :
  (fallback (classify question)).1 ⊆ {["S0"; "S1"; "S2"; "S3"; "S4"]}.
Proof.
  rewrite fallback_statuses. intros code Hcode. apply status_code_range.
  destruct (decide ((classify question).1 = ∅)) as [_|_].
  { apply elem_of_singleton in Hcode as ->. by repeat constructor. }
  destruct (classify_cases question) as [Hcl|(pipeline & r & _ & _ & Hcl)];
    rewrite Hcl in Hcode; [by apply elem_of_empty in Hcode|].
  apply foldl_keep_label_statuses in Hcode
    as [H|(l & s & _ & _ & Hl)]; [by apply elem_of_empty in H|].
  by apply LABEL_MAPPING_range in Hl.
Qed.

(** C10. A pair whose label is not a key of [LABEL_MAPPING] leaves the
    accumulator as it was whatever its score: the label is not recorded,
    the resolved pair is the one obtained without it, and [get_fortune]
    goes on exactly as it does without it. *)
Theorem unmapped_label_skipped
    pipeline current_year name age question r pre label score post :
  classifier = Some pipeline →
  pipeline question CANDIDATE_LABELS = Return r →
  zip (labels r) (scores r) = pre ++ (label, score) :: post →
  LABEL_MAPPING !! label = None →
  (∀ acc, keep_label acc (label, score) = acc)
  ∧ classify question = foldl keep_label (∅, []) (pre ++ post)
  ∧ (label ∉ (classify question).2)
  ∧ ∀ g, get_fortune current_year name age question g =
      (match select_answers
               (fallback (foldl keep_label (∅, []) (pre ++ post))).1 g with
       | Return (selected_answers, g') =>
           Return ("Gia chủ " +:+ name +:+ ", Sinh năm "
                     +:+ pretty (current_year - age) +:+ ". "
                     +:+ join " " selected_answers, g')
       | Raise e => Raise e
       end).
Proof.
  intros Hc Hp Hz Hnone.
  assert (∀ acc, keep_label acc (label, score) = acc) as Hskip.
  { intros acc. by apply keep_label_unmapped. }
  assert (classify question = foldl keep_label (∅, []) (pre ++ post)) as Hcl.
  { rewrite (classify_returned pipeline question r Hc Hp), Hz.
    by apply foldl_keep_label_skip. }
  split_and!; [done|done| |].
  - rewrite Hcl, foldl_keep_label_topic_labels. simpl.
    intros Hin. apply list_elem_of_fmap in Hin as ([l s] & -> & Hin).
    apply list_elem_of_filter in Hin as [[_ [c Hl]] _]. simpl in *.
    congruence.
  - intros g. by rewrite get_fortune_unfold, Hcl.
Qed.

(** ** Composition *)

(** C4. Whenever the answers have been selected, the result is the
    greeting with the name and the birth year followed by the answers
    joined by one space: a single answer stands alone, and each further
    answer follows the earlier ones after one space. *)
Theorem final_response_is_greeting_template
    current_year name age question g :
  get_fortune current_year name age question g =
    match select_answers (fallback (classify question)).1 g with
    | Return (selected_answers, g') =>
        Return ("Gia chủ " +:+ name +:+ ", Sinh năm "
                  +:+ pretty (current_year - age) +:+ ". "
                  +:+ join " " selected_answers, g')
    | Raise e => Raise e
    end
  ∧ (∀ a, join " " [a] = a)
  ∧ (∀ a b, join " " [a; b] = a +:+ " " +:+ b)
  ∧ (∀ first earlier a,
       join " " ((first :: earlier) ++ [a])
       = join " " (first :: earlier) +:+ " " +:+ a).
Proof.
  split_and!.
  - apply get_fortune_unfold.
  - intros a. apply join_singleton.
  - done.
  - intros first earlier a. by apply join_snoc.
Qed.

(** C7. The year in the result is the year read at the call minus the
    age; at the year 2024 and the age 25 it is 1999. *)
Theorem birth_year_is_current_year_minus_age
    current_year name age question g final_response g' :
  get_fortune current_year name age question g
    = Return (final_response, g') →
  ∃ selected_answers,
    final_response
      = "Gia chủ " +:+ name +:+ ", Sinh năm "
          +:+ pretty (current_year - age) +:+ ". "
          +:+ join " " selected_answers
    ∧ (current_year = 2024 → age = 25 →
       final_response
         = "Gia chủ " +:+ name +:+ ", Sinh năm 1999. "
             +:+ join " " selected_answers).
Proof.
  rewrite get_fortune_unfold.
  destruct (select_answers _ g) as [[sel g'']|e]; [|done].
  intros [= <- <-]. exists sel. split; [done|].
  intros -> ->. unfold format_response. by do 2 f_equal.
Qed.

Lemma classify_kept_statuses pipeline question r label score code :
  classifier = Some pipeline →
  pipeline question CANDIDATE_LABELS = Return r →
  (label, score) ∈ zip (labels r) (scores r) →
  PrimFloat.ltb threshold score = true →
  LABEL_MAPPING !! label = Some code →
  (fallback (classify question)).1 = (classify question).1
  ∧ code ∈ (classify question).1.
Proof.
  intros Hc Hp Hin Hs Hl.
  assert (code ∈ (classify question).1) as Hcode.
  { rewrite (classify_returned pipeline question r Hc Hp).
    apply foldl_keep_label_statuses. right. by exists label, score. }
  split; [|done]. rewrite fallback_statuses.
  destruct (decide ((classify question).1 = ∅)) as [Hemp|]; [|done].
  rewrite Hemp in Hcode. by apply elem_of_empty in Hcode.
Qed.

Lemma set_iter_NoDup statuses : NoDup (set_iter statuses).
Proof. rewrite set_iter_perm. apply NoDup_elements. Qed.

Lemma set_iter_elem_of statuses code :
  code ∈ set_iter statuses ↔ code ∈ statuses.
Proof. by rewrite set_iter_perm, elem_of_elements. Qed.

Lemma select_answers_pair statuses code1 item1 pool1 code2 item2 pool2 g :
  set_iter statuses = [code1; code2] →
  category_data code1 = Some item1 → answers item1 = Some pool1 →
  pool1 ≠ [] →
  category_data code2 = Some item2 → answers item2 = Some pool2 →
  pool2 ≠ [] →
  ∃ a b g', a ∈ pool1 ∧ b ∈ pool2
    ∧ select_answers statuses g = Return ([a; b], g').
Proof.
  intros Hit Hc1 Ha1 Hne1 Hc2 Ha2 Hne2. unfold select_answers.
  rewrite Hit. simpl. unfold mbind, M_bind.
  destruct (pick_answer_pool [] code1 item1 pool1 g Hc1 Ha1 Hne1)
    as (a & g1 & Hin1 & ->).
  destruct (pick_answer_pool ([] ++ [a]) code2 item2 pool2 g1 Hc2 Ha2 Hne2)
    as (b & g2 & Hin2 & ->).
  by exists a, b, g2.
Qed.

(** C5. When two pairs of the classifier's output are both kept and map to
    the same status code, that code is in the resolved set, the loop over
    the set visits it exactly once, and at that visit draws once from its
    pool; when no kept pair maps elsewhere the set holds that code alone
    and the message carries one answer of its pool. *)
Theorem same_status_labels_give_one_answer
    pipeline current_year name age question r
    i j label1 score1 label2 score2 code :
  classifier = Some pipeline →
  pipeline question CANDIDATE_LABELS = Return r →
  i ≠ j →
  zip (labels r) (scores r) !! i = Some (label1, score1) →
  zip (labels r) (scores r) !! j = Some (label2, score2) →
  PrimFloat.ltb threshold score1 = true →
  PrimFloat.ltb threshold score2 = true →
  LABEL_MAPPING !! label1 = Some code →
  LABEL_MAPPING !! label2 = Some code →
  code ∈ (fallback (classify question)).1
  ∧ (∃ before after,
       set_iter (fallback (classify question)).1 = before ++ code :: after
       ∧ (code ∉ before) ∧ (code ∉ after)
       ∧ ∀ item pool,
           category_data code = Some item → answers item = Some pool →
           ∀ g, pick_answers (set_iter (fallback (classify question)).1) [] g
                = (earlier ← pick_answers before [];
                   a ← choice pool;
                   pick_answers after (earlier ++ [a])) g)
  ∧ ((∀ label score code',
        (label, score) ∈ zip (labels r) (scores r) →
        PrimFloat.ltb threshold score = true →
        LABEL_MAPPING !! label = Some code' → code' = code) →
     (fallback (classify question)).1 = {[code]}
     ∧ ∀ item pool,
         category_data code = Some item → answers item = Some pool →
         pool ≠ [] →
         ∀ g, ∃ a g', a ∈ pool
           ∧ get_fortune current_year name age question g
             = Return ("Gia chủ " +:+ name +:+ ", Sinh năm "
                         +:+ pretty (current_year - age) +:+ ". " +:+ a,
                       g')).
Proof.
  intros Hc Hp Hij Hi Hj Hs1 Hs2 Hl1 Hl2.
  apply list_elem_of_lookup_2 in Hi.
  destruct (classify_kept_statuses _ _ _ _ _ _ Hc Hp Hi Hs1 Hl1)
    as [Hfb Hcode].
  rewrite Hfb. split_and!; [done| |].
  - assert (code ∈ set_iter (classify question).1) as Hin
      by (by apply set_iter_elem_of).
    apply list_elem_of_split in Hin as (before & after & Hsplit).
    pose proof (set_iter_NoDup (classify question).1) as Hnd.
    rewrite Hsplit in Hnd. apply NoDup_app in Hnd as (_ & Hbefore & Hnd).
    apply NoDup_cons in Hnd as [Hafter _].
    exists before, after. split_and!; [done| |done|].
    { intros Hin. by apply (Hbefore code Hin); left. }
    intros item pool Hcat Hans g. rewrite Hsplit, pick_answers_app.
    unfold mbind, M_bind.
    destruct (pick_answers before [] g) as [[earlier g1]|e]; [|done].
    simpl. unfold pick_answer. rewrite Hcat, Hans. unfold mbind, M_bind.
    by destruct (choice pool g1) as [[a g2]|e].
  - intros Honly.
    assert ((classify question).1 = {[code]}) as Hset.
    { apply set_eq. intros code'. rewrite elem_of_singleton. split.
      - rewrite (classify_returned pipeline question r Hc Hp).
        rewrite foldl_keep_label_statuses. simpl.
        intros [H|(l & s & Hin & Hs & Hl)]; [by apply elem_of_empty in H|].
        by eapply Honly.
      - by intros ->. }
    split; [done|]. intros item pool Hcat Hans Hne g.
    rewrite get_fortune_unfold, Hfb, Hset.
    destruct (select_answers_singleton_pool code item pool g Hcat Hans Hne)
      as (a & g' & Hin & ->).
    by exists a, g'.
Qed.

(** C6. When two kept pairs map to two different status codes, both codes
    are in the resolved set; when no kept pair maps elsewhere the set holds
    exactly the two, and with a non-empty pool for each the message is the
    greeting followed by two answers with one space between them, one
    from each pool, in the order in which the set is visited. *)
Theorem distinct_status_labels_give_two_answers
    pipeline current_year name age question r
    label1 score1 label2 score2 code1 code2 :
  classifier = Some pipeline →
  pipeline question CANDIDATE_LABELS = Return r →
  (label1, score1) ∈ zip (labels r) (scores r) →
  (label2, score2) ∈ zip (labels r) (scores r) →
  PrimFloat.ltb threshold score1 = true →
  PrimFloat.ltb threshold score2 = true →
  LABEL_MAPPING !! label1 = Some code1 →
  LABEL_MAPPING !! label2 = Some code2 →
  code1 ≠ code2 →
  code1 ∈ (fallback (classify question)).1
  ∧ code2 ∈ (fallback (classify question)).1
  ∧ ((∀ label score code',
        (label, score) ∈ zip (labels r) (scores r) →
        PrimFloat.ltb threshold score = true →
        LABEL_MAPPING !! label = Some code' →
        code' = code1 ∨ code' = code2) →
     (fallback (classify question)).1 = {[code1; code2]}
     ∧ ∀ item1 pool1 item2 pool2,
         category_data code1 = Some item1 → answers item1 = Some pool1 →
         pool1 ≠ [] →
         category_data code2 = Some item2 → answers item2 = Some pool2 →
         pool2 ≠ [] →
         ∀ g, ∃ a b g',
           get_fortune current_year name age question g
           = Return ("Gia chủ " +:+ name +:+ ", Sinh năm "
                       +:+ pretty (current_year - age) +:+ ". "
                       +:+ a +:+ " " +:+ b, g')
           ∧ ((a ∈ pool1 ∧ b ∈ pool2) ∨ (a ∈ pool2 ∧ b ∈ pool1))).
Proof.
  intros Hc Hp Hin1 Hin2 Hs1 Hs2 Hl1 Hl2 Hne.
  destruct (classify_kept_statuses _ _ _ _ _ _ Hc Hp Hin1 Hs1 Hl1)
    as [Hfb Hcode1].
  destruct (classify_kept_statuses _ _ _ _ _ _ Hc Hp Hin2 Hs2 Hl2)
    as [_ Hcode2].
  rewrite Hfb. split_and!; [done|done|].
  intros Honly.
  assert ((classify question).1 = {[code1; code2]}) as Hset.
  { apply set_eq. intros code'.
    rewrite elem_of_union, !elem_of_singleton. split.
    - rewrite (classify_returned pipeline question r Hc Hp).
      rewrite foldl_keep_label_statuses. simpl.
      intros [H|(l & s & Hin & Hs & Hl)]; [by apply elem_of_empty in H|].
      by eapply Honly.
    - by intros [->| ->]. }
  split; [done|].
  intros item1 pool1 item2 pool2 Hcat1 Hans1 Hne1 Hcat2 Hans2 Hne2 g.
  rewrite get_fortune_unfold, Hfb, Hset.
  assert ([code1; code2] ≡ₚ set_iter {[code1; code2]}) as Hperm.
  { rewrite set_iter_perm, elements_union_singleton.
    - by rewrite elements_singleton.
    - by rewrite elem_of_singleton. }
  apply Permutation_length_2_inv in Hperm as [Hit|Hit].
  - destruct (select_answers_pair _ _ _ _ _ _ _ g
                Hit Hcat1 Hans1 Hne1 Hcat2 Hans2 Hne2)
      as (a & b & g' & Ha & Hb & ->).
    exists a, b, g'. split; [done|]. by left.
  - destruct (select_answers_pair _ _ _ _ _ _ _ g
                Hit Hcat2 Hans2 Hne2 Hcat1 Hans1 Hne1)
      as (a & b & g' & Ha & Hb & ->).
    exists a, b, g'. split; [done|]. by right.
Qed.

(** ** What holds of the composer on tables without an empty pool *)

Lemma pick_answers_returns order selected_answers g :
  (∀ item, item ∈ ANSWERS_DATA → answers item ≠ Some []) →
  ∃ selected g', pick_answers order selected_answers g = Return (selected, g').
Proof.
  intros Htable. revert selected_answers g.
  induction order as [|code order IH]; intros sel g; [by eexists _, _|].
  simpl. unfold mbind, M_bind.
  assert (∃ sel' g', pick_answer sel code g = Return (sel', g'))
    as (sel' & g' & ->); [|apply IH].
  unfold pick_answer.
  destruct (category_data code) as [item|] eqn:Hcat; [|by eexists _, _].
  destruct (answers item) as [pool|] eqn:Hans; [|by eexists _, _].
  apply find_some in Hcat as [Hin _]. apply list_elem_of_In in Hin.
  assert (pool ≠ []) as Hne.
  { intros ->. by apply (Htable item Hin). }
  destruct (choice_returns pool g Hne) as (a & g' & _ & Hch).
  unfold mbind, M_bind. rewrite Hch. by eexists _, _.
Qed.

Lemma format_response_nonempty name birth_year selected_answers :
  format_response name birth_year selected_answers ≠ "".
Proof. done. Qed.

Lemma get_fortune_returns current_year name age question g :
  (∀ item, item ∈ ANSWERS_DATA → answers item ≠ Some []) →
  ∃ final_response g',
    get_fortune current_year name age question g = Return (final_response, g')
    ∧ final_response ≠ "".
Proof.
  intros Htable. rewrite get_fortune_unfold. unfold select_answers.
  unfold mbind, M_bind.
  destruct (pick_answers_returns
              (set_iter (fallback (classify question)).1) [] g Htable)
    as (sel & g' & ->).
  destruct (decide (sel = [])); eexists _, _;
    (split; [done|apply format_response_nonempty]).
Qed.

Lemma select_answers_empty_table statuses g :
  ANSWERS_DATA = [] → select_answers statuses g = Return ([default_answer], g).
Proof.
  intros Hempty. unfold select_answers, mbind, M_bind.
  assert (∀ order, pick_answers order [] g = Return ([], g)) as ->; [|done].
  induction order as [|code order IH]; [done|]. simpl.
  unfold mbind, M_bind, pick_answer, category_data. by rewrite Hempty.
Qed.

(** ** Further properties of the resolution *)

Lemma omap_LABEL_MAPPING_snoc topic_labels label code :
  LABEL_MAPPING !! label = Some code →
  omap (λ l, LABEL_MAPPING !! l) (topic_labels ++ [label])
  = omap (λ l, LABEL_MAPPING !! l) topic_labels ++ [code].
Proof. intros Hl. rewrite omap_app. simpl. by rewrite Hl. Qed.

(** What the loop keeps true of its two accumulators. *)
Lemma foldl_keep_label_invariant items acc :
  acc.1 = list_to_set (omap (λ l, LABEL_MAPPING !! l) acc.2) →
  Forall (λ l, is_Some (LABEL_MAPPING !! l)) acc.2 →
  (foldl keep_label acc items).1
  = list_to_set (omap (λ l, LABEL_MAPPING !! l) (foldl keep_label acc items).2)
  ∧ Forall (λ l, is_Some (LABEL_MAPPING !! l)) (foldl keep_label acc items).2.
Proof.
  revert acc. induction items as [|[label score] items IH]; intros acc H1 H2;
    [done|].
  simpl. apply IH; destruct acc as [statuses topic_labels]; unfold keep_label;
    destruct (PrimFloat.ltb threshold score);
    try destruct (LABEL_MAPPING !! label) as [code|] eqn:Hl; simpl in *;
    try done.
  - rewrite (omap_LABEL_MAPPING_snoc _ _ _ Hl), list_to_set_app_L, <- H1.
    simpl. rewrite (right_id_L ∅ (∪)). apply (comm_L (∪)).
  - apply Forall_app. split; [done|]. by repeat constructor.
Qed.

Lemma classify_invariant question :
  (classify question).1
  = list_to_set (omap (λ l, LABEL_MAPPING !! l) (classify question).2)
  ∧ Forall (λ l, is_Some (LABEL_MAPPING !! l)) (classify question).2.
Proof.
  destruct (classify_cases question) as [->|(pipeline & r & _ & _ & ->)];
    [done|].
  by apply foldl_keep_label_invariant.
Qed.

(** X1. After the fallback, every recorded topic label is a key of
    [LABEL_MAPPING], at least one label is recorded, and the resolved status
    set is exactly the set of the codes of the recorded labels. *)
Theorem resolved_statuses_are_codes_of_topic_labels question :
  (fallback (classify question)).1
  = list_to_set
      (omap (λ l, LABEL_MAPPING !! l) (fallback (classify question)).2)
  ∧ Forall (λ l, is_Some (LABEL_MAPPING !! l)) (fallback (classify question)).2
  ∧ (fallback (classify question)).2 ≠ [].
Proof.
  destruct (classify_invariant question) as [Hcodes Hkeys].
  destruct (classify question) as [statuses topic_labels]. simpl in *.
  unfold fallback. destruct (decide (statuses = ∅)) as [Hemp|Hne]; simpl.
  - assert (topic_labels = []) as ->.
    { destruct topic_labels as [|l tl]; [done|]. exfalso.
      apply Forall_cons in Hkeys as [[code Hl] _].
      rewrite Hemp in Hcodes. simpl in Hcodes. rewrite Hl in Hcodes.
      assert (code ∈ (∅ : gset string)) as H; [|by apply elem_of_empty in H].
      rewrite Hcodes. apply elem_of_list_to_set. by left. }
    rewrite Hemp. split_and!; [done| |done].
    repeat constructor. by eexists.
  - split_and!; [done|done|]. intros ->. by apply Hne.
Qed.

(** ** Further properties of the composition *)

Lemma choice_advances pool g :
  pool ≠ [] →
  ∃ a, a ∈ pool
    ∧ choice pool g
      = Return (a, {| draws := draws g; cursor := S (cursor g) |}).
Proof.
  intros Hne. unfold choice.
  destruct (decide (length pool = 0%nat)) as [H0|H0]; [by destruct pool|].
  unfold mbind, M_bind, randbelow.
  set (i := (draws g (cursor g) `mod` length pool)%nat).
  assert (i < length pool)%nat as Hi by (by apply Nat.mod_upper_bound).
  destruct (lookup_lt_is_Some_2 pool i Hi) as [a Ha]. rewrite Ha.
  exists a. split; [|done]. by eapply list_elem_of_lookup_2.
Qed.

(** The three ways one pass of the loop over the statuses can go. *)
Lemma pick_answer_cases selected_answers code g :
  (has_answers code = false
   ∧ (∀ item, category_data code = Some item → answers item = None)
   ∧ pick_answer selected_answers code g = Return (selected_answers, g))
  ∨ (has_answers code = true
     ∧ (∃ item, category_data code = Some item ∧ answers item = Some [])
     ∧ pick_answer selected_answers code g = Raise IndexError)
  ∨ (has_answers code = true
     ∧ ∃ item pool a,
         category_data code = Some item ∧ answers item = Some pool
         ∧ pool ≠ [] ∧ a ∈ pool
         ∧ pick_answer selected_answers code g
           = Return (selected_answers ++ [a],
                     {| draws := draws g; cursor := S (cursor g) |})).
Proof.
  unfold has_answers, pick_answer.
  destruct (category_data code) as [item|]; [|by left].
  destruct (answers item) as [pool|] eqn:Hans.
  - right. destruct pool as [|a0 pool].
    + left. split_and!; [done| |done]. by exists item.
    + right. split; [done|].
      destruct (choice_advances (a0 :: pool) g) as (a & Hin & Hch); [done|].
      exists item, (a0 :: pool), a. split_and!; try done.
      unfold mbind, M_bind. by rewrite Hch.
  - left. split_and!; [done| |done]. by intros ? [= <-].
Qed.

Lemma pick_answers_spec order selected_answers g :
  match pick_answers order selected_answers g with
  | Return (selected, g') =>
      ∃ new,
        selected = selected_answers ++ new
        ∧ length new = length (filter (λ code, has_answers code = true) order)
        ∧ draws g' = draws g
        ∧ cursor g' = (cursor g + length new)%nat
        ∧ Forall (λ a, ∃ code item pool,
                    code ∈ order ∧ category_data code = Some item
                    ∧ answers item = Some pool ∧ a ∈ pool) new
        ∧ ∀ code item,
            code ∈ order → category_data code = Some item →
            answers item ≠ Some []
  | Raise e =>
      e = IndexError
      ∧ ∃ code item,
          code ∈ order ∧ category_data code = Some item
          ∧ answers item = Some []
  end.
Proof.
  revert selected_answers g.
  induction order as [|code order IH]; intros sel g; simpl.
  { exists []. rewrite app_nil_r. split_and!; try done.
    intros code item Hin. by apply elem_of_nil in Hin. }
  unfold mbind, M_bind.
  destruct (pick_answer_cases sel code g)
    as [(Hno & Hnone & ->)
       |[(Hyes & (item & Hcat & Hans) & ->)
        |(Hyes & item & pool & a & Hcat & Hans & Hne & Hin & ->)]].
  - specialize (IH sel g).
    destruct (pick_answers order sel g) as [[selected g']|e].
    + destruct IH as (new & -> & Hlen & Hd & Hc & Hfrom & Hok).
      exists new. split_and!; try done.
      * rewrite filter_cons_False by congruence. done.
      * eapply Forall_impl; [exact Hfrom|]. simpl.
        intros b (c & it & p & Hc' & ?). exists c, it, p.
        split; [by right|done].
      * intros c it [->|Hc']%elem_of_cons Hcat'.
        -- rewrite (Hnone _ Hcat'). done.
        -- by eapply Hok.
    + destruct IH as (-> & c & it & Hc' & ?). split; [done|].
      exists c, it. split; [by right|done].
  - split; [done|]. exists code, item. split; [by left|done].
  - specialize (IH (sel ++ [a]) {| draws := draws g; cursor := S (cursor g) |}).
    destruct (pick_answers order (sel ++ [a]) _) as [[selected g']|e].
    + destruct IH as (new & -> & Hlen & Hd & Hc & Hfrom & Hok).
      exists (a :: new). split_and!.
      * by rewrite <- app_assoc.
      * rewrite filter_cons_True by done. simpl. by rewrite Hlen.
      * done.
      * rewrite Hc. simpl. lia.
      * constructor.
        -- exists code, item, pool. split; [by left|done].
        -- eapply Forall_impl; [exact Hfrom|]. simpl.
           intros b (c & it & p & Hc' & ?). exists c, it, p.
           split; [by right|done].
      * intros c it [->|Hc']%elem_of_cons Hcat'.
        -- rewrite Hcat in Hcat'. injection Hcat' as <-. rewrite Hans.
           intros [= ->]. done.
        -- by eapply Hok.
    + destruct IH as (-> & c & it & Hc' & ?). split; [done|].
      exists c, it. split; [by right|done].
Qed.

Lemma set_iter_length statuses : length (set_iter statuses) = size statuses.
Proof. by rewrite set_iter_perm. Qed.

Lemma resolved_status_code question code :
  code ∈ (fallback (classify question)).1 →
  code ∈ ["S0"; "S1"; "S2"; "S3"; "S4"].
Proof.
  rewrite fallback_statuses. intros Hcode.
  destruct (decide ((classify question).1 = ∅)) as [_|_].
  { apply elem_of_singleton in Hcode as ->. by repeat constructor. }
  destruct (classify_cases question) as [Hcl|(pipeline & r & _ & _ & Hcl)];
    rewrite Hcl in Hcode; [by apply elem_of_empty in Hcode|].
  apply foldl_keep_label_statuses in Hcode
    as [H|(l & s & _ & _ & Hl)]; [by apply elem_of_empty in H|].
  by apply LABEL_MAPPING_range in Hl.
Qed.

Lemma resolved_statuses_size question :
  (1 ≤ size (fallback (classify question)).1 ≤ 5)%nat.
Proof.
  split.
  - pose proof (fallback_nonempty (classify question)) as Hne.
    assert (size (fallback (classify question)).1 ≠ 0)%nat; [|lia].
    apply size_non_empty_iff. by intros H%leibniz_equiv.
  - change 5%nat
      with (size ({["S0"; "S1"; "S2"; "S3"; "S4"]} : gset string)).
    apply subseteq_size. intros code Hcode.
    by apply status_code_range, (resolved_status_code question).
Qed.

Lemma filter_has_answers_nil (order : list string) :
  (∀ code, code ∈ order → has_answers code = false) →
  filter (λ code, has_answers code = true) order = [].
Proof.
  induction order as [|code order IH]; intros Hall; [done|].
  rewrite filter_cons_False.
  - apply IH. intros c Hc. apply Hall. by right.
  - rewrite Hall by (by left). done.
Qed.

(** X3. [get_fortune] raises exactly when the first record found for some
    resolved status holds an empty list of answers, and what it raises is
    then [IndexError]; whether it raises does not depend on the random
    generator. *)
Theorem get_fortune_raises_iff current_year name age question g e :
  get_fortune current_year name age question g = Raise e ↔
  e = IndexError
  ∧ ∃ code item,
      code ∈ (fallback (classify question)).1
      ∧ category_data code = Some item ∧ answers item = Some [].
Proof.
  rewrite get_fortune_unfold. unfold select_answers, mbind, M_bind.
  pose proof (pick_answers_spec
                (set_iter (fallback (classify question)).1) [] g) as Hspec.
  destruct (pick_answers _ [] g) as [[selected g']|e0].
  - destruct Hspec as (new & _ & _ & _ & _ & _ & Hok). split.
    + by destruct (decide (selected = [])).
    + intros (_ & code & item & Hin & Hcat & Hans). exfalso.
      apply (Hok code item); [by apply set_iter_elem_of|done|done].
  - destruct Hspec as (-> & code & item & Hin & Hcat & Hans). split.
    + intros [= <-]. split; [done|]. exists code, item.
      split; [by apply set_iter_elem_of|done].
    + by intros [-> _].
Qed.

(** X4. A returned message carries between one and five answers, never
    more than there are resolved statuses, and each of them is either the
    default string or a member of the answers list of the first record of
    a resolved status. *)
Theorem fortune_answers_bounded
    current_year name age question g final_response g' :
  get_fortune current_year name age question g = Return (final_response, g') →
  ∃ selected_answers,
    final_response
    = "Gia chủ " +:+ name +:+ ", Sinh năm "
        +:+ pretty (current_year - age) +:+ ". "
        +:+ join " " selected_answers
    ∧ (1 ≤ length selected_answers ≤ 5)%nat
    ∧ (length selected_answers ≤ size (fallback (classify question)).1)%nat
    ∧ Forall (λ a, a = default_answer
                   ∨ ∃ code item pool,
                       code ∈ (fallback (classify question)).1
                       ∧ category_data code = Some item
                       ∧ answers item = Some pool ∧ a ∈ pool)
        selected_answers.
Proof.
  rewrite get_fortune_unfold. unfold select_answers, mbind, M_bind.
  pose proof (resolved_statuses_size question) as [Hone Hfive].
  pose proof (pick_answers_spec
                (set_iter (fallback (classify question)).1) [] g) as Hspec.
  destruct (pick_answers _ [] g) as [[selected g1]|e0]; [|done].
  destruct Hspec as (new & -> & Hlen & _ & _ & Hfrom & _). simpl.
  assert (length new ≤ size (fallback (classify question)).1)%nat as Hle.
  { rewrite Hlen, <- set_iter_length. apply length_filter. }
  destruct (decide (new = [])) as [->|Hne]; intros [= <- <-].
  - exists [default_answer]. split_and!; simpl; try done; try lia.
    repeat constructor.
  - exists new. split_and!; try done; try lia.
    + destruct new; [done|]. simpl. lia.
    + eapply Forall_impl; [exact Hfrom|]. simpl.
      intros a (code & item & pool & Hin & ?). right.
      exists code, item, pool. split; [by apply set_iter_elem_of|done].
Qed.

(** X6. When no resolved status has a record with an answers list, the
    message is the greeting followed by the default string alone, and the
    random generator is left as it was. *)
Theorem no_answers_gives_default current_year name age question g :
  (∀ code, code ∈ (fallback (classify question)).1 →
           has_answers code = false) →
  get_fortune current_year name age question g
  = Return ("Gia chủ " +:+ name +:+ ", Sinh năm "
              +:+ pretty (current_year - age) +:+ ". " +:+ default_answer, g).
Proof.
  intros Hnone. rewrite get_fortune_unfold.
  unfold select_answers, mbind, M_bind.
  pose proof (pick_answers_spec
                (set_iter (fallback (classify question)).1) [] g) as Hspec.
  assert (filter (λ code, has_answers code = true)
            (set_iter (fallback (classify question)).1) = []) as Hfilter.
  { apply filter_has_answers_nil. intros code Hin.
    by apply Hnone, set_iter_elem_of. }
  destruct (pick_answers _ [] g) as [[selected g1]|e0].
  - destruct Hspec as (new & -> & Hlen & Hd & Hc & _ & _).
    rewrite Hfilter in Hlen. apply nil_length_inv in Hlen as ->. simpl.
    destruct g as [d c], g1 as [d1 c1]. simpl in *. subst.
    by rewrite Nat.add_0_r.
  - destruct Hspec as (_ & code & item & Hin & Hcat & Hans).
    apply set_iter_elem_of in Hin. apply Hnone in Hin.
    unfold has_answers in Hin. rewrite Hcat, Hans in Hin. done.
Qed.


(** ** The labels the classifier is asked about *)

Lemma candidate_label_mapped label :
  label ∈ CANDIDATE_LABELS → is_Some (LABEL_MAPPING !! label).
Proof.
  intros H.
  repeat (apply elem_of_cons in H as [->|H];
          [eexists; vm_compute; reflexivity|]).
  by apply elem_of_nil in H.
Qed.

Lemma candidate_codes_distinct label1 label2 :
  label1 ∈ CANDIDATE_LABELS → label2 ∈ CANDIDATE_LABELS →
  LABEL_MAPPING !! label1 = LABEL_MAPPING !! label2 → label1 = label2.
Proof.
  intros H1 H2.
  repeat (apply elem_of_cons in H1 as [->|H1];
          [repeat (apply elem_of_cons in H2 as [->|H2];
                   [vm_compute; intros; first [done|discriminate]|]);
           by apply elem_of_nil in H2|]).
  by apply elem_of_nil in H1.
Qed.

Lemma zip_labels_sublist (ls : list string) (ss : list float) :
  (zip ls ss).*1 `sublist_of` ls.
Proof.
  revert ss. induction ls as [|l ls IH]; intros [|s ss]; simpl;
    try done; [apply sublist_nil_l|].
  by apply sublist_skip.
Qed.

Lemma filter_mapped_candidates (items : list (string * float)) :
  Forall (λ l, l ∈ CANDIDATE_LABELS) items.*1 →
  filter (λ item, PrimFloat.ltb threshold item.2 = true
                  ∧ is_Some (LABEL_MAPPING !! item.1)) items
  = filter (λ item, PrimFloat.ltb threshold item.2 = true) items.
Proof.
  induction items as [|[l s] items IH]; [done|]. simpl.
  intros [Hl Hrest]%Forall_cons. apply candidate_label_mapped in Hl.
  destruct (PrimFloat.ltb threshold s) eqn:Hs.
  - rewrite !filter_cons_True by (simpl; done). by rewrite IH.
  - rewrite filter_cons_False by (simpl; intros [? _]; congruence).
    rewrite filter_cons_False by (simpl; congruence).
    by apply IH.
Qed.

Lemma candidate_codes_NoDup (topic_labels : list string) :
  NoDup topic_labels →
  Forall (λ l, l ∈ CANDIDATE_LABELS) topic_labels →
  NoDup (omap (λ l, LABEL_MAPPING !! l) topic_labels)
  ∧ length (omap (λ l, LABEL_MAPPING !! l) topic_labels)
    = length topic_labels.
Proof.
  induction topic_labels as [|l tl IH]; [by split; [constructor|]|].
  intros [Hl Hnd]%NoDup_cons [Hc Hcs]%Forall_cons.
  destruct (IH Hnd Hcs) as [IHnd IHlen]. simpl.
  destruct (candidate_label_mapped l Hc) as [code Hcode]. rewrite Hcode.
  split; [|simpl; by f_equal].
  apply NoDup_cons. split; [|done].
  intros (l' & Hl' & Hcode')%list_elem_of_omap.
  apply Hl. rewrite <- Hcode in Hcode'.
  rewrite (candidate_codes_distinct l l'); [done|done| |done].
  by eapply Forall_forall in Hcs.
Qed.

(** X12. When the classifier returns only labels it was asked about,
    every label whose score is above the threshold is recorded, in the
    order returned; if moreover no label is returned twice, the kept labels
    have pairwise different status codes, so there are as many statuses as
    kept labels. *)
Theorem candidate_labels_are_all_kept pipeline question r :
  classifier = Some pipeline →
  pipeline question CANDIDATE_LABELS = Return r →
  Forall (λ l, l ∈ CANDIDATE_LABELS) (labels r) →
  (classify question).2
  = (filter (λ item, PrimFloat.ltb threshold item.2 = true)
       (zip (labels r) (scores r))).*1
  ∧ (NoDup (labels r) →
     size (classify question).1 = length (classify question).2).
Proof.
  intros Hc Hp Hcand.
  assert (Forall (λ l, l ∈ CANDIDATE_LABELS) (zip (labels r) (scores r)).*1)
    as Hzip.
  { apply Forall_forall. intros l Hl.
    eapply Forall_forall in Hcand; [exact Hcand|].
    eapply elem_of_sublist; [exact Hl|apply zip_labels_sublist]. }
  assert ((classify question).2
          = (filter (λ item, PrimFloat.ltb threshold item.2 = true)
               (zip (labels r) (scores r))).*1) as Htopic.
  { rewrite (classify_returned pipeline question r Hc Hp).
    rewrite foldl_keep_label_topic_labels. simpl.
    by rewrite filter_mapped_candidates. }
  split; [done|]. intros Hnd.
  assert ((classify question).2 `sublist_of` labels r) as Hsub.
  { rewrite Htopic. etrans; [|apply zip_labels_sublist].
    apply fmap_sublist, sublist_filter. }
  destruct (candidate_codes_NoDup (classify question).2) as [Hcodes Hlen].
  { by eapply sublist_NoDup. }
  { apply Forall_forall. intros l Hl.
    eapply Forall_forall in Hcand; [exact Hcand|].
    by eapply elem_of_sublist. }
  destruct (classify_invariant question) as [-> _].
  by rewrite size_list_to_set.
Qed.


(** ** Order of the classifier's pairs *)

Lemma foldl_keep_label_Permutation items1 items2 acc :
  items1 ≡ₚ items2 →
  (foldl keep_label acc items1).1 = (foldl keep_label acc items2).1
  ∧ (foldl keep_label acc items1).2 ≡ₚ (foldl keep_label acc items2).2.
Proof.
  intros Hperm. split.
  - apply set_eq. intros code. rewrite !foldl_keep_label_statuses.
    by setoid_rewrite Hperm.
  - rewrite !foldl_keep_label_topic_labels. by rewrite Hperm.
Qed.

Lemma filter_has_answers_all (order : list string) :
  (∀ code, code ∈ order → has_answers code = true) →
  filter (λ code, has_answers code = true) order = order.
Proof.
  induction order as [|code order IH]; intros Hall; [done|].
  rewrite filter_cons_True by (apply Hall; by left).
  f_equal. apply IH. intros c Hc. apply Hall. by right.
Qed.

(** X9. When each of the five status codes has a first record with a
    non-empty answers list, [get_fortune] returns for every request, the
    message holds exactly one answer for each resolved status, each taken
    from the list of a resolved status, and the default string is not
    added. *)
Theorem complete_table_answers_every_status
    current_year name age question g :
  (∀ code, code ∈ ["S0"; "S1"; "S2"; "S3"; "S4"] →
     ∃ item pool, category_data code = Some item
       ∧ answers item = Some pool ∧ pool ≠ []) →
  ∃ selected_answers g',
    get_fortune current_year name age question g
    = Return ("Gia chủ " +:+ name +:+ ", Sinh năm "
                +:+ pretty (current_year - age) +:+ ". "
                +:+ join " " selected_answers, g')
    ∧ length selected_answers = size (fallback (classify question)).1
    ∧ Forall (λ a, ∃ code item pool,
                code ∈ (fallback (classify question)).1
                ∧ category_data code = Some item
                ∧ answers item = Some pool ∧ a ∈ pool) selected_answers.
Proof.
  intros Htable. rewrite get_fortune_unfold.
  unfold select_answers, mbind, M_bind.
  pose proof (resolved_statuses_size question) as [Hone _].
  assert (∀ code, code ∈ set_iter (fallback (classify question)).1 →
            ∃ item pool, category_data code = Some item
              ∧ answers item = Some pool ∧ pool ≠ []) as Hpools.
  { intros code Hin. apply Htable, (resolved_status_code question).
    by apply set_iter_elem_of. }
  pose proof (pick_answers_spec
                (set_iter (fallback (classify question)).1) [] g) as Hspec.
  destruct (pick_answers _ [] g) as [[selected g1]|e0].
  - destruct Hspec as (new & -> & Hlen & _ & _ & Hfrom & _). simpl.
    rewrite filter_has_answers_all, set_iter_length in Hlen.
    2:{ intros code Hin. destruct (Hpools code Hin) as (it & p & Hc & Ha & _).
        unfold has_answers. by rewrite Hc, Ha. }
    exists new, g1. rewrite decide_False by (intros ->; simpl in Hlen; lia).
    split_and!; [done|done|].
    eapply Forall_impl; [exact Hfrom|]. simpl.
    intros a (code & item & pool & Hin & ?).
    exists code, item, pool. split; [by apply set_iter_elem_of|done].
  - destruct Hspec as (_ & code & item & Hin & Hcat & Hans). exfalso.
    destruct (Hpools code Hin) as (it & p & Hc & Ha & Hne).
    rewrite Hcat in Hc. injection Hc as <-. rewrite Hans in Ha.
    by injection Ha as <-.
Qed.


End Service.

(** ** Notification *)

(** C8. Without a webhook URL [send_webhook] does nothing; whatever the
    URL and whether or not the POST raises, [send_webhook] ends normally;
    and what the client receives from [/result] is the page built from
    [get_fortune]'s answer, the same for every webhook URL and every
    behaviour of the POST. *)
Theorem webhook_is_best_effort
    classifier ANSWERS_DATA set_iter WEBHOOK_URL http_post
    current_year name age question g :
  send_webhook None http_post name age question = ([], Return ())
  ∧ send_webhook (Some "") http_post name age question = ([], Return ())
  ∧ (send_webhook WEBHOOK_URL http_post name age question).2 = Return ()
  ∧ response (result classifier ANSWERS_DATA WEBHOOK_URL http_post set_iter
                current_year name age question g)
    = match get_fortune classifier ANSWERS_DATA set_iter
              current_year name age question g with
      | Return (fortune, _) =>
          Return {| page_name := name; page_age := age;
                    page_question := question; page_fortune := fortune |}
      | Raise e => Raise e
      end
  ∧ ∀ WEBHOOK_URL' http_post',
      response (result classifier ANSWERS_DATA WEBHOOK_URL http_post set_iter
                  current_year name age question g)
      = response (result classifier ANSWERS_DATA WEBHOOK_URL' http_post'
                    set_iter current_year name age question g).
Proof.
  assert (∀ url post,
    response (result classifier ANSWERS_DATA url post set_iter
                current_year name age question g)
    = match get_fortune classifier ANSWERS_DATA set_iter
              current_year name age question g with
      | Return (fortune, _) =>
          Return {| page_name := name; page_age := age;
                    page_question := question; page_fortune := fortune |}
      | Raise e => Raise e
      end) as Hresp.
  { intros url post. unfold result, mbind, M_bind.
    by destruct (get_fortune _ _ _ _ _ _ _ g) as [[fortune g']|e]. }
  split_and!; [done|done| |apply Hresp|].
  - unfold send_webhook. destruct WEBHOOK_URL as [url|]; [|done].
    destruct (decide (url = "")); [done|].
    by destruct (http_post url _).
  - intros url' post'. by rewrite !Hresp.
Qed.

(** ** Properties that compare two configurations *)

(** X2. The resolved status set does not depend on the order in which the
    classifier returns its pairs, and the recorded topic labels are the same
    up to order. *)
Theorem resolution_ignores_order pipeline1 pipeline2 question r1 r2 :
  pipeline1 question CANDIDATE_LABELS = Return r1 →
  pipeline2 question CANDIDATE_LABELS = Return r2 →
  zip (labels r1) (scores r1) ≡ₚ zip (labels r2) (scores r2) →
  (fallback (classify (Some pipeline1) question)).1
  = (fallback (classify (Some pipeline2) question)).1
  ∧ (fallback (classify (Some pipeline1) question)).2
    ≡ₚ (fallback (classify (Some pipeline2) question)).2.
Proof.
  intros Hp1 Hp2 Hperm.
  rewrite (classify_returned _ pipeline1 question r1 eq_refl Hp1).
  rewrite (classify_returned _ pipeline2 question r2 eq_refl Hp2).
  destruct (foldl_keep_label_Permutation _ _ (∅, []) Hperm) as [Hset Htopic].
  destruct (foldl keep_label _ (zip (labels r1) _)) as [st1 tl1].
  destruct (foldl keep_label _ (zip (labels r2) _)) as [st2 tl2].
  simpl in *. subst st2. unfold fallback.
  destruct (decide (st1 = ∅)); simpl; [|done].
  split; [done|]. by rewrite Htopic.
Qed.

Lemma category_data_app data1 data2 code :
  category_data (data1 ++ data2) code
  = match category_data data1 code with
    | Some item => Some item
    | None => category_data data2 code
    end.
Proof.
  unfold category_data. induction data1 as [|item data1 IH]; [done|].
  simpl. by destruct (bool_decide (status item = code)).
Qed.

Lemma category_data_None data code :
  category_data data code = None →
  ∀ item, item ∈ data → status item ≠ code.
Proof.
  unfold category_data. intros Hnone item Hin.
  apply list_elem_of_In in Hin.
  pose proof (find_none _ _ Hnone item Hin) as H. simpl in H.
  by apply bool_decide_eq_false in H.
Qed.

Lemma category_data_shadowed pre item post code :
  status item ∈ status <$> pre →
  category_data (pre ++ item :: post) code = category_data (pre ++ post) code.
Proof.
  intros Hin. rewrite !category_data_app.
  destruct (category_data pre code) as [found|] eqn:Hpre; [done|].
  apply list_elem_of_fmap in Hin as (earlier & Heq & Hin).
  pose proof (category_data_None pre code Hpre earlier Hin) as Hne.
  unfold category_data. simpl.
  rewrite bool_decide_eq_false_2; [done|]. by rewrite Heq.
Qed.

Lemma pick_answers_ext data1 data2 order selected_answers g :
  (∀ code, category_data data1 code = category_data data2 code) →
  pick_answers data1 order selected_answers g
  = pick_answers data2 order selected_answers g.
Proof.
  intros Hext. revert selected_answers g.
  induction order as [|code order IH]; intros sel g; [done|].
  simpl. unfold mbind, M_bind.
  assert (pick_answer data1 sel code g = pick_answer data2 sel code g) as ->
    by (unfold pick_answer; by rewrite Hext).
  destruct (pick_answer data2 sel code g) as [[sel' g']|e]; [apply IH|done].
Qed.

(** X5. Only the first record with a given status is ever consulted: a
    record whose status already occurs earlier in the table can be removed
    without changing what [get_fortune] does, whether or not the earlier
    record has an answers list. *)
Theorem later_duplicate_record_is_ignored
    classifier set_iter pre item post current_year name age question g :
  status item ∈ status <$> pre →
  get_fortune classifier (pre ++ item :: post) set_iter
    current_year name age question g
  = get_fortune classifier (pre ++ post) set_iter
      current_year name age question g.
Proof.
  intros Hin. rewrite !get_fortune_unfold.
  unfold select_answers, mbind, M_bind.
  rewrite (pick_answers_ext (pre ++ item :: post) (pre ++ post)); [done|].
  intros code. by apply category_data_shadowed.
Qed.

(** X7. If [answers.json] cannot be loaded, every request is answered with
    the greeting followed by the default string, whatever became of the
    classifier and whatever it returns. *)
Theorem failed_answers_load_serves_default
    built e set_iter current_year name age question g :
  get_fortune (load_classifier built) (load_answers_data (Raise e)) set_iter
    current_year name age question g
  = Return ("Gia chủ " +:+ name +:+ ", Sinh năm "
              +:+ pretty (current_year - age) +:+ ". " +:+ default_answer, g).
Proof.
  rewrite get_fortune_unfold. simpl.
  by rewrite select_answers_empty_table.
Qed.

Lemma SFltb_SFleb_trans (t x y : spec_float) :
  SFltb t x = true → SFleb x y = true → SFltb t y = true.
Proof.
  unfold SFltb, SFleb.
  destruct t as [st|st| |st mt et], x as [sx|sx| |sx mx ex],
    y as [sy|sy| |sy my ey]; simpl;
    try destruct st; try destruct sx; try destruct sy; simpl; try done.
  all: change PosDef.Pos.compare_cont with Pos.compare_cont.
  all: change (Pos.compare_cont Eq) with Pos.compare.
  all: destruct (Z.compare_spec et ex), (Z.compare_spec ex ey),
         (Z.compare_spec et ey); try lia; simpl; try done.
  all: destruct (Pos.compare_spec mt mx), (Pos.compare_spec mx my),
         (Pos.compare_spec mt my); try lia; simpl; try done.
Qed.

Lemma ltb_leb_trans (t x y : float) :
  PrimFloat.ltb t x = true → PrimFloat.leb x y = true →
  PrimFloat.ltb t y = true.
Proof. rewrite !ltb_spec, leb_spec. apply SFltb_SFleb_trans. Qed.

Lemma zip_raised_scores (ls : list string) (ss1 ss2 : list float) l s1 :
  Forall2 (λ a b, PrimFloat.leb a b = true) ss1 ss2 →
  (l, s1) ∈ zip ls ss1 →
  ∃ s2, (l, s2) ∈ zip ls ss2 ∧ PrimFloat.leb s1 s2 = true.
Proof.
  intros Hle. revert ls.
  induction Hle as [|a b ss1 ss2 Hab _ IH]; intros [|l0 ls]; simpl;
    try (by intros ?%elem_of_nil).
  intros [[= -> ->]|Hin]%elem_of_cons.
  - exists b. split; [by left|done].
  - destruct (IH ls Hin) as (s2 & Hin2 & Hs). exists s2.
    split; [by right|done].
Qed.

(** X13. Raising scores never removes a topic: when a second output of the
    classifier has the same labels with scores at least as high, every
    status code collected from the first is collected from the second,
    and, once the first has kept some label, the resolved set of the first
    is included in that of the second. *)
Theorem higher_scores_keep_more pipeline1 pipeline2 question r1 r2 :
  pipeline1 question CANDIDATE_LABELS = Return r1 →
  pipeline2 question CANDIDATE_LABELS = Return r2 →
  labels r1 = labels r2 →
  Forall2 (λ s1 s2, PrimFloat.leb s1 s2 = true) (scores r1) (scores r2) →
  (classify (Some pipeline1) question).1
  ⊆ (classify (Some pipeline2) question).1
  ∧ ((classify (Some pipeline1) question).1 ≠ ∅ →
     (fallback (classify (Some pipeline1) question)).1
     ⊆ (fallback (classify (Some pipeline2) question)).1).
Proof.
  intros Hp1 Hp2 Hlabels Hscores.
  assert ((classify (Some pipeline1) question).1
          ⊆ (classify (Some pipeline2) question).1) as Hsub.
  { rewrite (classify_returned _ pipeline1 question r1 eq_refl Hp1).
    rewrite (classify_returned _ pipeline2 question r2 eq_refl Hp2).
    intros code. rewrite !foldl_keep_label_statuses. simpl.
    intros [H|(l & s1 & Hin & Hs & Hl)]; [by left|]. right.
    rewrite Hlabels in Hin.
    destruct (zip_raised_scores _ _ _ _ _ Hscores Hin) as (s2 & Hin2 & Hle).
    exists l, s2. split_and!; [done| |done]. by eapply ltb_leb_trans. }
  split; [done|]. intros Hne. rewrite !fallback_statuses.
  rewrite decide_False by done. rewrite decide_False; [done|].
  intros Hemp. apply Hne. apply leibniz_equiv.
  rewrite Hemp in Hsub. by apply equiv_empty.
Qed.


(** * Concrete runs *)

Definition rng0 : rng := {| draws := λ _, 0%nat; cursor := 0 |}.

Definition example_answers : list category :=
  [ {| status := "S0"; answers := Some ["Công danh rộng mở."; "Nên kiên trì."] |};
    {| status := "S1"; answers := Some ["Duyên lành sắp đến."] |};
    {| status := "S2"; answers := Some ["Sức khỏe dồi dào."] |};
    {| status := "S3"; answers := Some ["Tài lộc hanh thông."] |};
    {| status := "S4"; answers := Some ["Vạn sự bình an."] |} ].

(** A table whose record for ["S4"] has an empty ["answers"] list. *)
Definition empty_pool_answers : list category :=
  [ {| status := "S4"; answers := Some [] |} ].

(** Classifier stubs; the scores are the binary64 values of the decimal
    numerals in the comments. *)
Definition pipeline_at_threshold (_ : string) (_ : list string)
    : outcome classification :=
  Return {| labels := ["Tài lộc"; "Sự nghiệp"];
            scores := [0x1.d1eb851eb851fp-1 (* 0.91 *);
                       0x1.3333333333333p-1 (* 0.6 *)]%float |}.

Definition pipeline_below_threshold (_ : string) (_ : list string)
    : outcome classification :=
  Return {| labels := ["Tài lộc"; "Sự nghiệp"];
            scores := [0x1.3333333333333p-1 (* 0.6 *);
                       0x1.3333333333333p-2 (* 0.3 *)]%float |}.

Definition pipeline_same_status (_ : string) (_ : list string)
    : outcome classification :=
  Return {| labels := ["Tình duyên"; "Gia đạo"];
            scores := [0x1.999999999999ap-1 (* 0.8 *);
                       0x1.6666666666666p-1 (* 0.7 *)]%float |}.

Definition pipeline_two_statuses (_ : string) (_ : list string)
    : outcome classification :=
  Return {| labels := ["Sự nghiệp"; "Sức khỏe"];
            scores := [0x1.6666666666666p-1 (* 0.7 *);
                       0x1.4cccccccccccdp-1 (* 0.65 *)]%float |}.

Definition pipeline_unmapped (_ : string) (_ : list string)
    : outcome classification :=
  Return {| labels := ["Vận hạn"; "Tài lộc"];
            scores := [0x1.ccccccccccccdp-1 (* 0.9 *);
                       0x1.d1eb851eb851fp-1 (* 0.91 *)]%float |}.

Lemma elements_enumerates (s : gset string) : elements s ≡ₚ elements s.
Proof. reflexivity. Defined.

(** C3. With the record for ["S4"] holding an empty list of answers and the
    resolved set holding ["S4"], the selection of answers raises
    [IndexError], and so does [get_fortune]: no string is returned. *)
Theorem empty_answer_pool_raises g :
  (fallback (classify None "Năm nay thế nào?")).1 = {["S4"]}
  ∧ select_answers empty_pool_answers elements {["S4"]} g = Raise IndexError
  ∧ get_fortune None empty_pool_answers elements
      2024 "An" 25 "Năm nay thế nào?" g = Raise IndexError.
Proof. split_and!; [by vm_compute|done|done]. Qed.

(** ** The theorems at concrete inputs *)

Lemma fallback_to_general_status_witness :
  Forall (λ score, PrimFloat.ltb threshold score = false)
    [0x1.3333333333333p-1; 0x1.3333333333333p-2]%float
  ∧ fallback (classify (Some pipeline_below_threshold) "Năm nay thế nào?")
    = ({["S4"]}, ["Tổng quát"])
  ∧ ∃ a g', a ∈ ["Vạn sự bình an."]
      ∧ get_fortune (Some pipeline_below_threshold) example_answers elements
          2024 "An" 25 "Năm nay thế nào?" rng0
        = Return ("Gia chủ An, Sinh năm 1999. " +:+ a, g').
Proof.
  assert (Forall (λ score, PrimFloat.ltb threshold score = false)
            [0x1.3333333333333p-1; 0x1.3333333333333p-2]%float) as Hlow
    by (repeat constructor).
  split; [exact Hlow|].
  destruct (fallback_to_general_status
              (Some pipeline_below_threshold) example_answers
              elements elements_enumerates
              2024 "An" 25 "Năm nay thế nào?") as (Hfb & _ & Hmsg).
  { right. exists pipeline_below_threshold. split; [reflexivity|].
    right. eexists. split; [reflexivity|exact Hlow]. }
  split; [exact Hfb|].
  apply (Hmsg {| status := "S4"; answers := Some ["Vạn sự bình an."] |});
    [reflexivity|reflexivity|discriminate].
Defined.

Lemma score_not_above_threshold_excluded_witness :
  PrimFloat.leb threshold threshold = true
  ∧ classify (Some pipeline_at_threshold) "Tiền bạc ra sao?"
    = foldl keep_label (∅, []) [("Tài lộc", 0x1.d1eb851eb851fp-1%float)].
Proof.
  split; [reflexivity|].
  destruct (score_not_above_threshold_excluded
              (Some pipeline_at_threshold) pipeline_at_threshold
              "Tiền bạc ra sao?"
              {| labels := ["Tài lộc"; "Sự nghiệp"];
                 scores := [0x1.d1eb851eb851fp-1; threshold]%float |}
              [("Tài lộc", 0x1.d1eb851eb851fp-1%float)]
              "Sự nghiệp" threshold [])
    as (_ & _ & Hcl & _); [reflexivity|reflexivity|reflexivity|reflexivity|].
  exact Hcl.
Defined.

Lemma unmapped_label_skipped_witness :
  LABEL_MAPPING !! "Vận hạn" = None
  ∧ PrimFloat.ltb threshold 0x1.ccccccccccccdp-1 = true
  ∧ ("Vận hạn" ∉ (classify (Some pipeline_unmapped) "Vận hạn thế nào?").2)
  ∧ classify (Some pipeline_unmapped) "Vận hạn thế nào?"
    = foldl keep_label (∅, []) [("Tài lộc", 0x1.d1eb851eb851fp-1%float)].
Proof.
  split; [reflexivity|]. split; [reflexivity|].
  destruct (unmapped_label_skipped
              (Some pipeline_unmapped) example_answers elements
              pipeline_unmapped 2024 "An" 25 "Vận hạn thế nào?"
              {| labels := ["Vận hạn"; "Tài lộc"];
                 scores := [0x1.ccccccccccccdp-1;
                            0x1.d1eb851eb851fp-1]%float |}
              [] "Vận hạn" 0x1.ccccccccccccdp-1%float
              [("Tài lộc", 0x1.d1eb851eb851fp-1%float)])
    as (_ & Hcl & Hnot & _); [reflexivity|reflexivity|reflexivity|reflexivity|].
  split; [exact Hnot|exact Hcl].
Defined.

Lemma birth_year_is_current_year_minus_age_witness :
  ∃ selected_answers,
    "Gia chủ An, Sinh năm 1999. Vạn sự bình an."
    = "Gia chủ " +:+ "An" +:+ ", Sinh năm 1999. "
        +:+ join " " selected_answers.
Proof.
  destruct (birth_year_is_current_year_minus_age
              None example_answers elements
              2024 "An" 25 "Năm nay thế nào?" rng0
              (format_response "An" 1999 ["Vạn sự bình an."])
              {| draws := draws rng0; cursor := 1 |})
    as (selected_answers & _ & Hyear); [reflexivity|].
  exists selected_answers. apply Hyear; reflexivity.
Defined.

Lemma same_status_labels_give_one_answer_witness :
  PrimFloat.ltb threshold 0x1.999999999999ap-1 = true
  ∧ PrimFloat.ltb threshold 0x1.6666666666666p-1 = true
  ∧ LABEL_MAPPING !! "Tình duyên" = Some "S1"
  ∧ LABEL_MAPPING !! "Gia đạo" = Some "S1"
  ∧ (fallback (classify (Some pipeline_same_status) "Bao giờ cưới?")).1
    = {["S1"]}
  ∧ ∃ a g', a ∈ ["Duyên lành sắp đến."]
      ∧ get_fortune (Some pipeline_same_status) example_answers elements
          2024 "An" 25 "Bao giờ cưới?" rng0
        = Return ("Gia chủ An, Sinh năm 1999. " +:+ a, g').
Proof.
  do 4 (split; [reflexivity|]).
  destruct (same_status_labels_give_one_answer
              (Some pipeline_same_status) example_answers
              elements elements_enumerates pipeline_same_status
              2024 "An" 25 "Bao giờ cưới?"
              {| labels := ["Tình duyên"; "Gia đạo"];
                 scores := [0x1.999999999999ap-1;
                            0x1.6666666666666p-1]%float |}
              0%nat 1%nat
              "Tình duyên" 0x1.999999999999ap-1%float
              "Gia đạo" 0x1.6666666666666p-1%float "S1")
    as (_ & _ & Honly);
    [reflexivity|reflexivity|discriminate|reflexivity|reflexivity
    |reflexivity|reflexivity|reflexivity|reflexivity|].
  destruct Honly as [Hset Hmsg].
  { intros label score code' Hin _ Hl. simpl in Hin.
    apply elem_of_cons in Hin as [Heq|Hin].
    { injection Heq as -> _. vm_compute in Hl. by injection Hl. }
    apply elem_of_cons in Hin as [Heq|Hin].
    { injection Heq as -> _. vm_compute in Hl. by injection Hl. }
    by apply elem_of_nil in Hin. }
  split; [exact Hset|].
  apply (Hmsg {| status := "S1"; answers := Some ["Duyên lành sắp đến."] |});
    [reflexivity|reflexivity|discriminate].
Defined.

Lemma distinct_status_labels_give_two_answers_witness :
  PrimFloat.ltb threshold 0x1.6666666666666p-1 = true
  ∧ PrimFloat.ltb threshold 0x1.4cccccccccccdp-1 = true
  ∧ LABEL_MAPPING !! "Sự nghiệp" = Some "S0"
  ∧ LABEL_MAPPING !! "Sức khỏe" = Some "S2"
  ∧ (fallback (classify (Some pipeline_two_statuses) "Việc và sức?")).1
    = {["S0"; "S2"]}
  ∧ ∃ a b g',
      get_fortune (Some pipeline_two_statuses) example_answers elements
        2024 "An" 25 "Việc và sức?" rng0
      = Return ("Gia chủ " +:+ "An" +:+ ", Sinh năm "
                  +:+ pretty (2024 - 25) +:+ ". " +:+ a +:+ " " +:+ b, g')
      ∧ ((a ∈ ["Công danh rộng mở."; "Nên kiên trì."]
          ∧ b ∈ ["Sức khỏe dồi dào."])
         ∨ (a ∈ ["Sức khỏe dồi dào."]
            ∧ b ∈ ["Công danh rộng mở."; "Nên kiên trì."])).
Proof.
  do 4 (split; [reflexivity|]).
  destruct (distinct_status_labels_give_two_answers
              (Some pipeline_two_statuses) example_answers
              elements elements_enumerates pipeline_two_statuses
              2024 "An" 25 "Việc và sức?"
              {| labels := ["Sự nghiệp"; "Sức khỏe"];
                 scores := [0x1.6666666666666p-1;
                            0x1.4cccccccccccdp-1]%float |}
              "Sự nghiệp" 0x1.6666666666666p-1%float
              "Sức khỏe" 0x1.4cccccccccccdp-1%float "S0" "S2")
    as (_ & _ & Honly);
    [reflexivity|reflexivity|apply list_elem_of_here
    |apply list_elem_of_further, list_elem_of_here
    |reflexivity|reflexivity|reflexivity|reflexivity|discriminate|].
  destruct Honly as [Hset Hmsg].
  { intros label score code' Hin _ Hl. simpl in Hin.
    apply elem_of_cons in Hin as [Heq|Hin].
    { injection Heq as -> _. vm_compute in Hl. left. by injection Hl. }
    apply elem_of_cons in Hin as [Heq|Hin].
    { injection Heq as -> _. vm_compute in Hl. right. by injection Hl. }
    by apply elem_of_nil in Hin. }
  split; [exact Hset|].
  apply (Hmsg
           {| status := "S0";
              answers := Some ["Công danh rộng mở."; "Nên kiên trì."] |}
           ["Công danh rộng mở."; "Nên kiên trì."]
           {| status := "S2"; answers := Some ["Sức khỏe dồi dào."] |}
           ["Sức khỏe dồi dào."]);
    [reflexivity|reflexivity|discriminate
    |reflexivity|reflexivity|discriminate].
Defined.

(** ** The further properties at concrete inputs *)

Definition pipeline_two_statuses_reversed (_ : string) (_ : list string)
    : outcome classification :=
  Return {| labels := ["Sức khỏe"; "Sự nghiệp"];
            scores := [0x1.4cccccccccccdp-1 (* 0.65 *);
                       0x1.6666666666666p-1 (* 0.7 *)]%float |}.

(** A table whose first record for ["S4"] has no ["answers"] key and is
    followed by a second record for ["S4"]. *)
Definition shadowing_record : category :=
  {| status := "S4"; answers := None |}.

Definition shadowed_record : category :=
  {| status := "S4"; answers := Some ["Vạn sự bình an."] |}.

Lemma general_is_the_only_status_without_classifier question code :
  code ∈ (fallback (classify None question)).1 → code = "S4".
Proof.
  change (code ∈ ({["S4"]} ∪ ∅ : gset string) → code = "S4").
  rewrite elem_of_union, elem_of_singleton, elem_of_empty. by intros [?|[]].
Defined.

Lemma resolution_ignores_order_witness :
  (fallback (classify (Some pipeline_two_statuses) "Việc và sức?")).1
  = (fallback (classify (Some pipeline_two_statuses_reversed)
                 "Việc và sức?")).1.
Proof.
  destruct (resolution_ignores_order
              pipeline_two_statuses pipeline_two_statuses_reversed
              "Việc và sức?"
              {| labels := ["Sự nghiệp"; "Sức khỏe"];
                 scores := [0x1.6666666666666p-1;
                            0x1.4cccccccccccdp-1]%float |}
              {| labels := ["Sức khỏe"; "Sự nghiệp"];
                 scores := [0x1.4cccccccccccdp-1;
                            0x1.6666666666666p-1]%float |})
    as [Hset _]; [reflexivity|reflexivity|apply perm_swap|exact Hset].
Defined.

Lemma get_fortune_raises_iff_witness :
  get_fortune None empty_pool_answers elements
    2024 "An" 25 "Năm nay thế nào?" rng0 = Raise IndexError.
Proof.
  apply (get_fortune_raises_iff None empty_pool_answers
           elements elements_enumerates).
  split; [reflexivity|].
  exists "S4", {| status := "S4"; answers := Some [] |}.
  split_and!; [|reflexivity|reflexivity].
  apply elem_of_union_l, elem_of_singleton. reflexivity.
Defined.

Lemma fortune_answers_bounded_witness :
  ∃ selected_answers,
    "Gia chủ An, Sinh năm 1999. Vạn sự bình an."
    = "Gia chủ An, Sinh năm 1999. " +:+ join " " selected_answers
    ∧ (1 ≤ length selected_answers ≤ 5)%nat.
Proof.
  destruct (fortune_answers_bounded
              None example_answers elements elements_enumerates
              2024 "An" 25 "Năm nay thế nào?" rng0
              (format_response "An" 1999 ["Vạn sự bình an."])
              {| draws := draws rng0; cursor := 1 |})
    as (selected_answers & Hmsg & Hlen & _); [reflexivity|].
  exists selected_answers. split; [exact Hmsg|exact Hlen].
Defined.

Lemma later_duplicate_record_is_ignored_witness :
  get_fortune None [shadowing_record; shadowed_record] elements
    2024 "An" 25 "Năm nay thế nào?" rng0
  = get_fortune None [shadowing_record] elements
      2024 "An" 25 "Năm nay thế nào?" rng0.
Proof.
  apply (later_duplicate_record_is_ignored
           None elements [shadowing_record] shadowed_record []).
  apply list_elem_of_here.
Defined.

Lemma no_answers_gives_default_witness :
  get_fortune None [shadowing_record] elements
    2024 "An" 25 "Năm nay thế nào?" rng0
  = Return ("Gia chủ An, Sinh năm 1999. " +:+ default_answer, rng0).
Proof.
  apply (no_answers_gives_default
           None [shadowing_record] elements elements_enumerates).
  intros code Hin.
  rewrite (general_is_the_only_status_without_classifier _ _ Hin).
  reflexivity.
Defined.


Lemma complete_table_answers_every_status_witness :
  ∃ selected_answers g',
    get_fortune (Some pipeline_two_statuses) example_answers elements
      2024 "An" 25 "Việc và sức?" rng0
    = Return ("Gia chủ An, Sinh năm 1999. " +:+ join " " selected_answers,
              g')
    ∧ length selected_answers
      = size (fallback (classify (Some pipeline_two_statuses)
                          "Việc và sức?")).1.
Proof.
  destruct (complete_table_answers_every_status
              (Some pipeline_two_statuses) example_answers
              elements elements_enumerates
              2024 "An" 25 "Việc và sức?" rng0)
    as (selected_answers & g' & Hget & Hlen & _).
  { intros code Hin.
    repeat (apply elem_of_cons in Hin as [->|Hin];
            [eexists _, _; split_and!; [reflexivity|reflexivity|discriminate]
            |]).
    by apply elem_of_nil in Hin. }
  exists selected_answers, g'. split; [exact Hget|exact Hlen].
Defined.

Lemma candidate_labels_are_all_kept_witness :
  size (classify (Some pipeline_two_statuses) "Việc và sức?").1
  = length (classify (Some pipeline_two_statuses) "Việc và sức?").2.
Proof.
  destruct (candidate_labels_are_all_kept
              (Some pipeline_two_statuses) pipeline_two_statuses
              "Việc và sức?"
              {| labels := ["Sự nghiệp"; "Sức khỏe"];
                 scores := [0x1.6666666666666p-1;
                            0x1.4cccccccccccdp-1]%float |})
    as [_ Hsize]; [reflexivity|reflexivity|by repeat constructor|].
  apply Hsize. apply NoDup_cons. split; [|apply NoDup_singleton].
  intros Hin. apply list_elem_of_singleton in Hin. discriminate.
Defined.

Definition pipeline_above_threshold (_ : string) (_ : list string)
    : outcome classification :=
  Return {| labels := ["Tài lộc"; "Sự nghiệp"];
            scores := [0x1.d1eb851eb851fp-1 (* 0.91 *);
                       0x1.6666666666666p-1 (* 0.7 *)]%float |}.

Lemma higher_scores_keep_more_witness :
  (classify (Some pipeline_at_threshold) "Tiền bạc ra sao?").1
  ⊆ (classify (Some pipeline_above_threshold) "Tiền bạc ra sao?").1.
Proof.
  destruct (higher_scores_keep_more
              pipeline_at_threshold pipeline_above_threshold
              "Tiền bạc ra sao?"
              {| labels := ["Tài lộc"; "Sự nghiệp"];
                 scores := [0x1.d1eb851eb851fp-1;
                            0x1.3333333333333p-1]%float |}
              {| labels := ["Tài lộc"; "Sự nghiệp"];
                 scores := [0x1.d1eb851eb851fp-1;
                            0x1.6666666666666p-1]%float |})
    as [Hsub _];
    [reflexivity|reflexivity|reflexivity|by repeat constructor|exact Hsub].
Defined.
